(** * Static analysis core of the code-base documenter

    A shallow embedding of [BE/py_helpers/parse_code.py]: the name
    extraction rules ([get_name_from_node], [get_decorator_name]), the
    per-file extraction pass ([parse_python_file]), the repository scan
    ([scan_repo_for_python]) and the call graph construction
    ([build_call_graph]), followed by the properties of the design
    document that concern them. *)

From Stdlib Require Import List Permutation.
From stdpp Require Import gmap strings list fin_maps.
Import ListNotations.

Local Open Scope string_scope.
Local Open Scope list_scope.

(** ** Python values used by the module *)

(** Truth value of a Python [str]: only the empty string is false. *)
Definition truthy (s : string) : bool :=
  match s with
  | EmptyString => false
  | String _ _ => true
  end.

(** [filename.endswith(suffix)]. *)
Definition endswith (s suffix : string) : bool :=
  let n := String.length s in
  let k := String.length suffix in
  (k <=? n)%nat && String.eqb (String.substring (n - k) k s) suffix.

(** A path is kept as the list of its components: [os.path.join] adds a
    component at the end, and [os.path.relpath (full, root)] is the list
    of components below the root. *)
Definition path := list string.

(** Exceptions, as far as the handlers of [parse_python_file] tell them
    apart: [SyntaxError] (with its subclasses) and every other subclass
    of [Exception], kept with its class name.  [str(e)] is the message.
    These are what [open], [read], [ast.parse] and the traversal raise;
    the interrupts outside [Exception] ([KeyboardInterrupt],
    [SystemExit]) come from the user or from the process, not from
    reading or parsing, and are not modelled. *)
Inductive py_exception :=
| SyntaxError (msg : string)
| OtherException (cls msg : string).

Definition str_exc (e : py_exception) : string :=
  match e with
  | SyntaxError msg => msg
  | OtherException _ msg => msg
  end.

(** Outcome of a computation that may raise. *)
Inductive outcome (A : Type) :=
| Return (a : A)
| Raise (e : py_exception).
Arguments Return {A} a.
Arguments Raise {A} e.

#[global] Instance outcome_ret : MRet outcome := fun A a => Return a.
#[global] Instance outcome_bind : MBind outcome := fun A B k c =>
  match c with
  | Return a => k a
  | Raise e => Raise e
  end.

(** ** Syntax trees

    The nodes of Python's [ast] that the module inspects, and [Other]
    for every other node kind (statements such as [Return], [If],
    [Expr] or [AsyncFunctionDef], expressions such as [Subscript],
    [Constant] or [Lambda]) with its child nodes in field order.  The
    code is dynamically typed: any node may occur anywhere.  Leaves that
    no branch of the code looks at (expression contexts, import aliases)
    are not represented.

    In [FunctionDef], [arg_names] is what [[arg.arg for arg in
    node.args.args]] reads, and [arguments] is the [node.args] node
    itself: the walk descends into it, where annotations and default
    values live.  [type_params] is empty before Python 3.12. *)
#[warnings="-register-all"]
Inductive node :=
| PyModule (body : list node)
| FunctionDef (name : string) (lineno : nat) (arg_names : list string)
    (arguments : node) (body decorator_list : list node)
    (returns : option node) (type_params : list node)
| ClassDef (name : string) (lineno : nat) (bases keywords body
    decorator_list type_params : list node)
| Call (func : node) (args keywords : list node) (lineno : nat)
| Name (id : string)
| Attribute (value : node) (attr : string)
| Import (names : list (string * option string)) (lineno : nat)
| ImportFrom (module : option string)
    (names : list (string * option string)) (lineno : nat)
| Other (children : list node).

(** [ast.iter_child_nodes]: the child nodes, in the order of the
    class's [_fields]. *)
Definition iter_child_nodes (n : node) : list node :=
  match n with
  | PyModule body => body
  | FunctionDef _ _ _ arguments body decorator_list returns type_params =>
      arguments :: body ++ decorator_list ++ option_list returns ++
      type_params
  | ClassDef _ _ bases keywords body decorator_list type_params =>
      bases ++ keywords ++ body ++ decorator_list ++ type_params
  | Call func args keywords _ => func :: args ++ keywords
  | Name _ => []
  | Attribute value _ => [value]
  | Import _ _ => []
  | ImportFrom _ _ _ => []
  | Other children => children
  end.

(** Number of nodes of a tree, and of the trees of a queue. *)
Fixpoint node_size (n : node) : nat :=
  S (match n with
     | PyModule body => list_sum (map node_size body)
     | FunctionDef _ _ _ arguments body decorator_list returns type_params =>
         node_size arguments + list_sum (map node_size body) +
         list_sum (map node_size decorator_list) +
         match returns with Some r => node_size r | None => 0 end +
         list_sum (map node_size type_params)
     | ClassDef _ _ bases keywords body decorator_list type_params =>
         list_sum (map node_size bases) + list_sum (map node_size keywords) +
         list_sum (map node_size body) +
         list_sum (map node_size decorator_list) +
         list_sum (map node_size type_params)
     | Call func args keywords _ =>
         node_size func + list_sum (map node_size args) +
         list_sum (map node_size keywords)
     | Name _ => 0
     | Attribute value _ => node_size value
     | Import _ _ => 0
     | ImportFrom _ _ _ => 0
     | Other children => list_sum (map node_size children)
     end).

Definition queue_size (todo : list node) : nat :=
  list_sum (map node_size todo).

(** [ast.walk]: breadth first, through a queue.
<<
    todo = deque([node])
    while todo:
        node = todo.popleft()
        todo.extend(iter_child_nodes(node))
        yield node
>>
    The loop is run with a bound on its number of turns; [ast_walk]
    gives it the number of nodes of the tree, which is the number of
    turns the loop takes ([walk_queue_length]). *)
Fixpoint walk_queue (turns : nat) (todo : list node) : list node :=
  match turns with
  | O => []
  | S turns' =>
      match todo with
      | [] => []
      | n :: rest => n :: walk_queue turns' (rest ++ iter_child_nodes n)
      end
  end.

Definition ast_walk (tree : node) : list node :=
  walk_queue (node_size tree) [tree].

(** ** Name extraction *)

(** [get_name_from_node]: the empty string stands for "no name". *)
Fixpoint get_name_from_node (n : node) : string :=
  match n with
  | Name id => id
  | Attribute value attr =>
      let value := get_name_from_node value in
      if truthy value then value +:+ "." +:+ attr else attr
  | Call func _ _ _ => get_name_from_node func
  | _ => ""
  end.

(** What the interpreter provides and the module only calls:
    [str_node] is [str(node)] on a syntax tree object (the [ast] classes
    define no text of their own, so this is the interpreter's generic
    text for an object); [get_docstring] is [ast.get_docstring]. *)
Class interpreter := {
  str_node : node -> string;
  get_docstring : node -> option string
}.

Section Extraction.

Context `{interpreter}.

Definition get_decorator_name (n : node) : string :=
  match n with
  | Name id => id
  | Call func _ _ _ => get_name_from_node func
  | _ => str_node n
  end.

Definition get_annotation_name (n : node) : string :=
  get_name_from_node n.

(** ** The per-file record *)

Record function_info := {
  fn_name : string;
  fn_lineno : nat;
  fn_args : list string;
  fn_decorators : list string;
  fn_returns : option string;
  fn_docstring : option string
}.

Record class_info := {
  cl_name : string;
  cl_lineno : nat;
  cl_bases : list string;
  cl_methods : list string;
  cl_docstring : option string
}.

Record call_info := { call_func : string; call_lineno : nat }.

Record import_info := {
  im_module : string;
  im_alias : option string;
  im_lineno : nat
}.

(** The four lists that the traversal fills. *)
Record collected := {
  functions : list function_info;
  classes : list class_info;
  calls : list call_info;
  imports : list import_info
}.

Definition nothing_collected : collected :=
  {| functions := []; classes := []; calls := []; imports := [] |}.

(** The dictionary that [parse_python_file] returns: either
    [{"success": True, "functions": .., "classes": .., "calls": ..,
    "imports": ..}] or [{"success": False, "error": ..}]. *)
Inductive parse_result :=
| Success (found : collected)
| Failure (error : string).

(** [data.get("success")], [data.get("functions", [])] and
    [data.get("calls", [])]. *)
Definition get_success (data : parse_result) : bool :=
  match data with Success _ => true | Failure _ => false end.

Definition get_functions (data : parse_result) : list function_info :=
  match data with Success found => functions found | Failure _ => [] end.

Definition get_calls (data : parse_result) : list call_info :=
  match data with Success found => calls found | Failure _ => [] end.

(** ** The traversal *)

Definition function_record (n : node) : option function_info :=
  match n with
  | FunctionDef name lineno arg_names _ _ decorator_list returns _ =>
      Some {| fn_name := name;
              fn_lineno := lineno;
              fn_args := arg_names;
              fn_decorators := map get_decorator_name decorator_list;
              fn_returns := option_map get_annotation_name returns;
              fn_docstring := get_docstring n |}
  | _ => None
  end.

(** Base class names: a base without a name is left out. *)
Definition class_bases (bases : list node) : list string :=
  List.filter truthy (map get_name_from_node bases).

(** Names of the function definitions directly in a class body. *)
Definition class_methods (body : list node) : list string :=
  flat_map (fun item =>
    match item with
    | FunctionDef name _ _ _ _ _ _ _ => [name]
    | _ => []
    end) body.

(** The body of the loop [for node in ast.walk(tree)]: one node visited,
    the lists extended at their end. *)
Definition visit (acc : collected) (n : node) : collected :=
  match n with
  | FunctionDef _ _ _ _ _ _ _ _ =>
      {| functions := functions acc ++ option_list (function_record n);
         classes := classes acc;
         calls := calls acc;
         imports := imports acc |}
  | ClassDef name lineno bases _ body _ _ =>
      {| functions := functions acc;
         classes := classes acc ++
           [{| cl_name := name;
               cl_lineno := lineno;
               cl_bases := class_bases bases;
               cl_methods := class_methods body;
               cl_docstring := get_docstring n |}];
         calls := calls acc;
         imports := imports acc |}
  | Call func _ _ lineno =>
      let func_name := get_name_from_node func in
      if truthy func_name then
        {| functions := functions acc;
           classes := classes acc;
           calls := calls acc ++
             [{| call_func := func_name; call_lineno := lineno |}];
           imports := imports acc |}
      else acc
  | Import names lineno =>
      {| functions := functions acc;
         classes := classes acc;
         calls := calls acc;
         imports := imports acc ++
           map (fun alias =>
                  {| im_module := alias.1;
                     im_alias := alias.2;
                     im_lineno := lineno |}) names |}
  | ImportFrom module names lineno =>
      let module := default "" module in
      {| functions := functions acc;
         classes := classes acc;
         calls := calls acc;
         imports := imports acc ++
           map (fun alias =>
                  {| im_module := module +:+ "." +:+ alias.1;
                     im_alias := alias.2;
                     im_lineno := lineno |}) names |}
  | _ => acc
  end.

Definition extract (tree : node) : collected :=
  fold_left visit (ast_walk tree) nothing_collected.

(** [parse_python_file].  Its argument is what the first two statements
    of the [try] block come to for the given path: the tree that
    [ast.parse] returns for the text read from the file, or the
    exception that [open], [read] or [ast.parse] raises.  The rest of
    the block is the traversal; the two handlers follow. *)
Definition parse_python_file (load : outcome node) : parse_result :=
  match tree ← load; mret (Success (extract tree)) with
  | Return result => result
  | Raise (SyntaxError msg) => Failure ("Syntax error: " +:+ msg)
  | Raise e => Failure ("Parse error: " +:+ str_exc e)
  end.

(** ** The file system under the scanned root

    A directory lists its entries in the order in which [os.scandir]
    enumerates them.  A file stands for what loading it comes to (see
    [parse_python_file]). *)
#[warnings="-register-all"]
Inductive fs_node :=
| File (load : outcome node)
| Dir (entries : list (string * fs_node)).

Definition is_dir (n : fs_node) : bool :=
  match n with Dir _ => true | File _ => false end.

(** The node at a path below [n], if any. *)
Fixpoint fs_find (n : fs_node) (p : path) : option fs_node :=
  match p with
  | [] => Some n
  | name :: p' =>
      match n with
      | File _ => None
      | Dir entries =>
          match List.find (fun e => String.eqb e.1 name) entries with
          | Some e => fs_find e.2 p'
          | None => None
          end
      end
  end.

(** What loading the file at [p] comes to. *)
Definition load_file (root : option fs_node) (p : path) : outcome node :=
  match root ≫= (fun n => fs_find n p) with
  | Some (File load) => load
  | Some (Dir _) => Raise (OtherException "IsADirectoryError" "Is a directory")
  | None =>
      Raise (OtherException "FileNotFoundError" "No such file or directory")
  end.

(** [os.scandir] on the root: it raises when there is nothing at the
    path or when what is there is not a directory. *)
Definition scandir (top : option fs_node)
  : outcome (list (string * fs_node)) :=
  match top with
  | None =>
      Raise (OtherException "FileNotFoundError" "No such file or directory")
  | Some (File _) =>
      Raise (OtherException "NotADirectoryError" "Not a directory")
  | Some (Dir entries) => Return entries
  end.

(** [os.walk], top down, not following links, with no [onerror]: a
    directory that cannot be listed yields nothing.  Each directory
    yields [(dirpath, dirnames, filenames)] and then its subdirectories
    are walked.  The consumer of the generator may cut [dirnames] down
    in place before the generator resumes, and only the names left are
    walked: [keep] is that cut.  Paths are relative to the root, so the
    [dirpath] of the root is the empty path. *)
Fixpoint walk_dir (keep : string -> bool) (top : path) (n : fs_node)
  : list (path * list string * list string) :=
  match n with
  | File _ => []
  | Dir entries =>
      let dirs := map fst (List.filter (fun e => is_dir e.2) entries) in
      let nondirs :=
        map fst (List.filter (fun e => negb (is_dir e.2)) entries) in
      (top, List.filter keep dirs, nondirs) ::
      (fix walk_entries (es : list (string * fs_node)) :=
         match es with
         | [] => []
         | (name, child) :: es' =>
             (if is_dir child && keep name
              then walk_dir keep (top ++ [name]) child
              else []) ++ walk_entries es'
         end) entries
  end.

Definition os_walk (keep : string -> bool) (root : option fs_node)
  : list (path * list string * list string) :=
  match scandir root with
  | Raise _ => []
  | Return entries => walk_dir keep [] (Dir entries)
  end.

(** ** Dictionaries in insertion order

    [parse_results] is iterated with [items()], so its order matters: a
    dictionary with ordered keys is a list of pairs.  Assigning to a key
    that is present replaces the value where it is; a new key goes to
    the end. *)
Definition dict := list (path * parse_result).

Fixpoint dict_set {V} (d : list (path * V)) (k : path) (v : V)
  : list (path * V) :=
  match d with
  | [] => [(k, v)]
  | (k', v') :: d' =>
      if decide (k' = k) then (k', v) :: d' else (k', v') :: dict_set d' k v
  end.

Fixpoint dict_get {V} (d : list (path * V)) (k : path) : option V :=
  match d with
  | [] => None
  | (k', v') :: d' => if decide (k' = k) then Some v' else dict_get d' k
  end.

(** ** The scan *)

Definition ignore_dirs : gset string :=
  {[ ".git"; "node_modules"; "__pycache__"; "venv"; ".venv"; "dist";
     "build" ]}.

(** [dirnames[:] = [d for d in dirnames if d not in ignore_dirs]] *)
Definition not_ignored (d : string) : bool := bool_decide (d ∉ ignore_dirs).

(** The body of the loop over [filenames]. *)
Definition scan_file (root : option fs_node) (dirpath : path)
    (results : dict) (filename : string) : dict :=
  if endswith filename ".py" then
    let full_path := dirpath ++ [filename] in
    let rel_path := full_path in
    let parse_result := parse_python_file (load_file root full_path) in
    dict_set results rel_path parse_result
  else results.

Definition scan_repo_for_python (root : option fs_node) : dict :=
  fold_left
    (fun results '(dirpath, dirnames, filenames) =>
       fold_left (scan_file root dirpath) filenames results)
    (os_walk not_ignored root) [].

(** ** The call graph *)

(** The first loop of [build_call_graph]: function names to files. *)
Definition index_file (function_locations : gmap string path)
    (item : path * parse_result) : gmap string path :=
  let '(file_path, data) := item in
  if get_success data then
    fold_left
      (fun locations func => <[fn_name func := file_path]> locations)
      (get_functions data) function_locations
  else function_locations.

Definition function_locations (parse_results : dict) : gmap string path :=
  fold_left index_file parse_results ∅.

(** The second loop: for each file, each function of the file and each
    call of the file. *)
Definition add_edge (function_locations : gmap string path)
    (caller : string) (edges : list (string * string)) (call : call_info)
  : list (string * string) :=
  let callee := call_func call in
  if truthy caller && bool_decide (is_Some (function_locations !! callee))
  then edges ++ [(caller, callee)]
  else edges.

Definition edges_of_file (function_locations : gmap string path)
    (edges : list (string * string)) (item : path * parse_result)
  : list (string * string) :=
  let '(file_path, data) := item in
  if negb (get_success data) then edges
  else
    fold_left
      (fun edges func =>
         let caller := fn_name func in
         fold_left (add_edge function_locations caller)
           (get_calls data) edges)
      (get_functions data) edges.

Definition build_call_graph (parse_results : dict) : list (string * string) :=
  fold_left (edges_of_file (function_locations parse_results))
    parse_results [].

(** [analyze_code] of [BE/main.py]: the scan, then the call graph of its
    result. *)
Definition analyze_code (root : option fs_node)
  : dict * list (string * string) :=
  let parse_results := scan_repo_for_python root in
  let call_graph := build_call_graph parse_results in
  (parse_results, call_graph).

End Extraction.

(** * Vocabulary of the properties *)

(** ** Trees and records *)

(** [subnode x n]: [x] is [n] or lies below it. *)
Inductive subnode : node -> node -> Prop :=
| subnode_refl n : subnode n n
| subnode_child x c n :
    In c (iter_child_nodes n) -> subnode x c -> subnode x n.

(** The call record, if any, that visiting one node adds. *)
Definition call_record (n : node) : list call_info :=
  match n with
  | Call func _ _ lineno =>
      if truthy (get_name_from_node func)
      then [{| call_func := get_name_from_node func; call_lineno := lineno |}]
      else []
  | _ => []
  end.

(** The name that visiting one node adds to the function list. *)
Definition def_name (n : node) : list string :=
  match n with
  | FunctionDef name _ _ _ _ _ _ _ => [name]
  | _ => []
  end.

(** A node resolves when [get_name_from_node] gives it a name. *)
Definition resolves (n : node) : Prop := truthy (get_name_from_node n) = true.

(** The shapes that the rule does not cover. *)
Definition other_shape (n : node) : Prop :=
  match n with
  | Name _ | Attribute _ _ | Call _ _ _ _ => False
  | _ => True
  end.

(** ** The index and the edges *)

(** Whether a per-file record lists a function called [name]. *)
Definition declares (name : string) (data : parse_result) : bool :=
  existsb (fun func => String.eqb (fn_name func) name) (get_functions data).

(** The files that declare [name], in the order of the dictionary. *)
Definition declaring_files (name : string) (parse_results : dict)
  : list path :=
  map fst (List.filter (fun item => declares name item.2) parse_results).

(** The entries of the index under a name: the index holds one file
    path per key. *)
Definition index_entries (locations : gmap string path) (name : string)
  : list path :=
  option_list (locations !! name).

(** What one call adds for one caller, and what one file adds. *)
Definition call_edge (locations : gmap string path) (caller : string)
    (call : call_info) : list (string * string) :=
  if truthy caller && bool_decide (is_Some (locations !! call_func call))
  then [(caller, call_func call)]
  else [].

Definition file_edges (locations : gmap string path) (data : parse_result)
  : list (string * string) :=
  flat_map
    (fun func => flat_map (call_edge locations (fn_name func)) (get_calls data))
    (get_functions data).

(** How many times a pair is in the edge list, and how many functions
    and calls of a given name a record lists. *)
Definition occurrences (edge : string * string)
    (edges : list (string * string)) : nat :=
  length (List.filter (fun e => bool_decide (e = edge)) edges).

Definition count_functions (name : string) (data : parse_result) : nat :=
  length (List.filter (fun func => String.eqb (fn_name func) name)
            (get_functions data)).

Definition count_calls (name : string) (data : parse_result) : nat :=
  length (List.filter (fun call => String.eqb (call_func call) name)
            (get_calls data)).

(** The order of the design document: by caller, then by callee. *)
Definition edge_leb (e1 e2 : string * string) : bool :=
  match String.compare e1.1 e2.1 with
  | Lt => true
  | Eq => String.leb e1.2 e2.2
  | Gt => false
  end.

Fixpoint edges_sorted (edges : list (string * string)) : bool :=
  match edges with
  | [] => true
  | e1 :: rest =>
      match rest with
      | [] => true
      | e2 :: _ => edge_leb e1 e2 && edges_sorted rest
      end
  end.

(** The records of the files that were parsed. *)
Definition parsed (parse_results : dict) : dict :=
  List.filter (fun item => get_success item.2) parse_results.

(** The success flag, the names of the functions and the calls. *)
Definition skeleton (data : parse_result)
  : bool * list string * list call_info :=
  (get_success data, map fn_name (get_functions data), get_calls data).

(** The edges of one file, from what the call graph reads of it. *)
Definition skeleton_edges (locations : gmap string path)
    (sk : bool * list string * list call_info) : list (string * string) :=
  flat_map (fun caller => flat_map (call_edge locations caller) sk.2) sk.1.2.

(** ** The scan *)

(** The files that the scan parses, in the order in which it does. *)
Definition py_files (root : option fs_node) : list path :=
  flat_map
    (fun '(dirpath, dirnames, filenames) =>
       map (fun filename => dirpath ++ [filename])
         (List.filter (fun filename => endswith filename ".py") filenames))
    (os_walk not_ignored root).

(** Storing the record of one file. *)
Definition store `{interpreter} (root : option fs_node) (results : dict)
    (p : path) : dict :=
  dict_set results p (parse_python_file (load_file root p)).

(** Whether the root exists and is a directory. *)
Definition is_directory (root : option fs_node) : bool :=
  match root with
  | Some (Dir _) => true
  | _ => false
  end.

(** ** An interpreter for the examples

    CPython's text for an object whose class defines none,
    [<ast.Attribute object at 0x...>], with the address left open.  The
    example trees hold no docstring. *)
Definition class_name (n : node) : string :=
  match n with
  | PyModule _ => "Module"
  | FunctionDef _ _ _ _ _ _ _ _ => "FunctionDef"
  | ClassDef _ _ _ _ _ _ _ => "ClassDef"
  | Call _ _ _ _ => "Call"
  | Name _ => "Name"
  | Attribute _ _ => "Attribute"
  | Import _ _ => "Import"
  | ImportFrom _ _ _ => "ImportFrom"
  | Other _ => "AST"
  end.

Definition object_text (address : string) : interpreter :=
  {| str_node n :=
       "<ast." +:+ class_name n +:+ " object at " +:+ address +:+ ">";
     get_docstring _ := None |}.

(** ** Example files *)

(** A class with a method that defines a function and calls it:
<<
    class Greeter:
        def greet(self):
            def inner():
                pass
            inner()
>> *)
Definition inner_def : node :=
  FunctionDef "inner" 3 [] (Other []) [Other []] [] None [].

Definition greeter_module : node :=
  PyModule
    [ClassDef "Greeter" 1 [] []
       [FunctionDef "greet" 2 ["self"] (Other [Other []])
          [inner_def; Other [Call (Name "inner") [] [] 5]] [] None []]
       [] []].

(** Two functions that call themselves: [def ping(): ping()] and
    [def pong(): pong()]. *)
Definition ping_module : node :=
  PyModule
    [FunctionDef "ping" 1 [] (Other [])
       [Other [Call (Name "ping") [] [] 2]] [] None []].


(** A directory with a file that parses and a file that does not. *)
Definition half_broken_root : option fs_node :=
  Some (Dir [("a.py", File (Return ping_module));
             ("b.py", File (Raise (SyntaxError
                                     "invalid syntax (b.py, line 1)")))]).

(** The file of the design document:
<<
    def foo(a, b):
        return bar(a)

    def bar(x):
        return x
>> *)
Definition foo_bar_module : node :=
  PyModule
    [FunctionDef "foo" 1 ["a"; "b"] (Other [Other []; Other []])
       [Other [Call (Name "bar") [Name "a"] [] 2]] [] None [];
     FunctionDef "bar" 4 ["x"] (Other [Other []])
       [Other [Name "x"]] [] None []].

Definition foo_bar_root : option fs_node :=
  Some (Dir [("m.py", File (Return foo_bar_module))]).

(** Two files that each declare [run]. *)
Definition run_module (lineno : nat) : node :=
  PyModule [FunctionDef "run" lineno [] (Other []) [Other []] [] None []].

Definition two_run_root : option fs_node :=
  Some (Dir [("a.py", File (Return (run_module 1)));
             ("b.py", File (Return (run_module 7)))]).

(** A function that calls another three times:
<<
    def foo():
        bar()
        bar()
        bar()

    def bar():
        pass
>> *)
Definition three_calls_module : node :=
  PyModule
    [FunctionDef "foo" 1 [] (Other [])
       [Other [Call (Name "bar") [] [] 2];
        Other [Call (Name "bar") [] [] 3];
        Other [Call (Name "bar") [] [] 4]] [] None [];
     FunctionDef "bar" 6 [] (Other []) [Other []] [] None []].

Definition three_calls_root : option fs_node :=
  Some (Dir [("m.py", File (Return three_calls_module))]).



(** ** Paths of a tree *)

(** [reaches n p m]: following the names of [p] from [n], one entry
    after another, leads to [m]. *)
Inductive reaches : fs_node -> path -> fs_node -> Prop :=
| reaches_here n : reaches n [] n
| reaches_entry entries name child p m :
    In (name, child) entries ->
    reaches child p m ->
    reaches (Dir entries) (name :: p) m.

(** The names of the subdirectories and of the files of a directory, in
    the order of its listing. *)
Definition dir_names (entries : list (string * fs_node)) : list string :=
  map fst (List.filter (fun e => is_dir e.2) entries).

Definition file_names (entries : list (string * fs_node)) : list string :=
  map fst (List.filter (fun e => negb (is_dir e.2)) entries).

(** ** Counting what a record gives to the edge list *)

(** The functions of a record whose name is not empty, and its calls to
    a name of the index. *)
Definition named_functions (data : parse_result) : nat :=
  length (List.filter (fun func => truthy (fn_name func)) (get_functions data)).

Definition indexed_calls (locations : gmap string path)
    (data : parse_result) : nat :=
  length (List.filter
            (fun call => bool_decide (is_Some (locations !! call_func call)))
            (get_calls data)).

(** ** Counting the nodes of a tree *)

(** The sum of [f] over the nodes of a tree. *)
Fixpoint tree_sum (f : node -> nat) (n : node) : nat :=
  f n +
  match n with
  | PyModule body => list_sum (map (tree_sum f) body)
  | FunctionDef _ _ _ arguments body decorator_list returns type_params =>
      tree_sum f arguments + list_sum (map (tree_sum f) body) +
      list_sum (map (tree_sum f) decorator_list) +
      match returns with Some r => tree_sum f r | None => 0 end +
      list_sum (map (tree_sum f) type_params)
  | ClassDef _ _ bases keywords body decorator_list type_params =>
      list_sum (map (tree_sum f) bases) +
      list_sum (map (tree_sum f) keywords) +
      list_sum (map (tree_sum f) body) +
      list_sum (map (tree_sum f) decorator_list) +
      list_sum (map (tree_sum f) type_params)
  | Call func args keywords _ =>
      tree_sum f func + list_sum (map (tree_sum f) args) +
      list_sum (map (tree_sum f) keywords)
  | Name _ => 0
  | Attribute value _ => tree_sum f value
  | Import _ _ => 0
  | ImportFrom _ _ _ => 0
  | Other children => list_sum (map (tree_sum f) children)
  end.

(** The number of function definitions, and of calls with a callee that
    resolves, in a tree. *)
Definition count_defs (tree : node) : nat :=
  tree_sum (fun n => length (def_name n)) tree.

Definition count_resolved_calls (tree : node) : nat :=
  tree_sum (fun n => length (call_record n)) tree.

(** * Properties *)

(** ** The walk reaches every node *)

Lemma queue_size_app (q1 q2 : list node) :
  queue_size (q1 ++ q2) = queue_size q1 + queue_size q2.
Proof. unfold queue_size. by rewrite map_app, list_sum_app. Qed.

Lemma node_size_children (n : node) :
  node_size n = S (queue_size (iter_child_nodes n)).
Proof.
  destruct n as [| | | | | | | |]; simpl; f_equal;
    rewrite ?queue_size_app; unfold queue_size; simpl;
    rewrite ?map_app, ?list_sum_app; try lia.
  destruct returns; simpl; lia.
Qed.

Lemma node_size_pos (n : node) : 0 < node_size n.
Proof. rewrite node_size_children. lia. Qed.

Lemma walk_queue_spec (turns : nat) :
  forall todo x,
    queue_size todo <= turns ->
    In x (walk_queue turns todo) <->
    exists t, In t todo /\ subnode x t.
Proof.
  induction turns as [|turns IH]; intros todo x Hsize.
  - destruct todo as [|n rest].
    + simpl. split; [tauto | intros (t & [] & _)].
    + exfalso. pose proof (node_size_pos n).
      unfold queue_size in Hsize. simpl in Hsize. lia.
  - destruct todo as [|n rest].
    + simpl. split; [tauto | intros (t & [] & _)].
    + assert (Hrest : queue_size (rest ++ iter_child_nodes n) <= turns).
      { rewrite queue_size_app. unfold queue_size in *. simpl in Hsize.
        rewrite node_size_children in Hsize. unfold queue_size in Hsize.
        lia. }
      simpl. rewrite (IH _ x Hrest). split.
      * intros [<- | (t & Hin & Hsub)].
        { exists n. split; [by left | constructor]. }
        apply in_app_or in Hin as [Hin | Hin].
        { exists t. split; [by right | done]. }
        exists n. split; [by left |]. by eapply subnode_child.
      * intros (t & [<- | Hin] & Hsub).
        { inversion Hsub as [| ? c ? Hc Hsub']; subst; [by left |].
          right. exists c. split; [apply in_or_app; by right | done]. }
        right. exists t. split; [apply in_or_app; by left | done].
Qed.

Lemma ast_walk_spec (tree x : node) :
  In x (ast_walk tree) <-> subnode x tree.
Proof.
  unfold ast_walk. rewrite walk_queue_spec.
  - split.
    + by intros (t & [<- | []] & Hsub).
    + intros Hsub. exists tree. split; [by left | done].
  - unfold queue_size. simpl. lia.
Qed.

(** The loop takes as many turns as the queue has nodes, so the bound
    that [ast_walk] sets is never what stops it. *)
Lemma walk_queue_length (turns : nat) :
  forall todo,
    queue_size todo <= turns ->
    length (walk_queue turns todo) = queue_size todo.
Proof.
  induction turns as [|turns IH]; intros todo Hsize.
  - destruct todo as [|n rest]; [done |].
    exfalso. pose proof (node_size_pos n).
    unfold queue_size in Hsize. simpl in Hsize. lia.
  - destruct todo as [|n rest]; [done |].
    simpl. rewrite IH.
    + rewrite queue_size_app. unfold queue_size at 3. simpl.
      rewrite (node_size_children n). unfold queue_size. lia.
    + rewrite queue_size_app. unfold queue_size in *. simpl in Hsize.
      rewrite node_size_children in Hsize. unfold queue_size in Hsize. lia.
Qed.

(** Once the bound covers the queue, a larger bound changes nothing. *)
Lemma walk_queue_more (turns : nat) :
  forall todo turns',
    queue_size todo <= turns -> turns <= turns' ->
    walk_queue turns' todo = walk_queue turns todo.
Proof.
  induction turns as [|turns IH]; intros todo turns' Hsize Hle.
  - destruct todo as [|n rest]; [by destruct turns' |].
    exfalso. pose proof (node_size_pos n).
    unfold queue_size in Hsize. simpl in Hsize. lia.
  - destruct turns' as [|turns']; [lia |].
    destruct todo as [|n rest]; [done |].
    simpl. f_equal. apply IH; [| lia].
    rewrite queue_size_app. unfold queue_size in *. simpl in Hsize.
    rewrite node_size_children in Hsize. unfold queue_size in Hsize. lia.
Qed.

(** Any larger bound gives the walk of [ast_walk]. *)
Lemma ast_walk_turns (tree : node) (turns : nat) :
  node_size tree <= turns -> walk_queue turns [tree] = ast_walk tree.
Proof.
  intros Hle. unfold ast_walk. apply walk_queue_more; [| done].
  unfold queue_size. simpl. lia.
Qed.

(** ** What the traversal collects *)

Section ExtractionFacts.

Context `{interpreter}.

Lemma visit_functions (acc : collected) (n : node) :
  functions (visit acc n) = functions acc ++ option_list (function_record n).
Proof.
  destruct n; simpl; rewrite ?app_nil_r; try done.
  by destruct (truthy _).
Qed.

Lemma visit_calls (acc : collected) (n : node) :
  calls (visit acc n) = calls acc ++ call_record n.
Proof.
  destruct n; simpl; rewrite ?app_nil_r; try done.
  destruct (truthy _); simpl; by rewrite ?app_nil_r.
Qed.

Lemma fold_visit_functions (l : list node) :
  forall acc,
    functions (fold_left visit l acc) =
    functions acc ++ flat_map (fun n => option_list (function_record n)) l.
Proof.
  induction l as [|n l IH]; intros acc; simpl.
  - by rewrite app_nil_r.
  - by rewrite IH, visit_functions, <- app_assoc.
Qed.

Lemma fold_visit_calls (l : list node) :
  forall acc,
    calls (fold_left visit l acc) = calls acc ++ flat_map call_record l.
Proof.
  induction l as [|n l IH]; intros acc; simpl.
  - by rewrite app_nil_r.
  - by rewrite IH, visit_calls, <- app_assoc.
Qed.

Lemma extract_functions (tree : node) :
  functions (extract tree) =
  flat_map (fun n => option_list (function_record n)) (ast_walk tree).
Proof. unfold extract. by rewrite fold_visit_functions. Qed.

Lemma extract_calls (tree : node) :
  calls (extract tree) = flat_map call_record (ast_walk tree).
Proof. unfold extract. by rewrite fold_visit_calls. Qed.

Lemma parse_python_file_return (tree : node) :
  parse_python_file (Return tree) = Success (extract tree).
Proof. reflexivity. Qed.

Lemma parse_python_file_raise (e : py_exception) :
  get_success (parse_python_file (Raise e)) = false.
Proof. by destruct e. Qed.

End ExtractionFacts.

(** ** The index of function names *)

Lemma declares_spec (name : string) (data : parse_result) :
  declares name data = true <->
  exists func, In func (get_functions data) /\ fn_name func = name.
Proof.
  unfold declares. rewrite existsb_exists.
  split; intros (func & Hin & Heq); exists func; split; try done.
  - by apply String.eqb_eq.
  - by apply String.eqb_eq.
Qed.

Lemma index_functions_lookup (file_path : path) (name : string)
    (funcs : list function_info) :
  forall locations : gmap string path,
    fold_left (fun locations func => <[fn_name func := file_path]> locations)
      funcs locations !! name =
    if existsb (fun func => String.eqb (fn_name func) name) funcs
    then Some file_path else locations !! name.
Proof.
  induction funcs as [|func funcs IH]; intros locations; simpl; [done |].
  rewrite IH. destruct (existsb _ funcs); simpl.
  - by rewrite orb_true_r.
  - rewrite orb_false_r. destruct (String.eqb_spec (fn_name func) name).
    + subst. by rewrite lookup_insert_eq.
    + by rewrite lookup_insert_ne.
Qed.

Lemma index_file_lookup (locations : gmap string path)
    (file_path : path) (data : parse_result) (name : string) :
  index_file locations (file_path, data) !! name =
  if declares name data then Some file_path else locations !! name.
Proof.
  unfold index_file, declares. destruct data as [found | error]; simpl.
  - apply index_functions_lookup.
  - done.
Qed.

Lemma fold_index_file_lookup (parse_results : dict) (name : string) :
  forall locations : gmap string path,
    fold_left index_file parse_results locations !! name =
    match last (declaring_files name parse_results) with
    | Some file_path => Some file_path
    | None => locations !! name
    end.
Proof.
  induction parse_results as [|[file_path data] rest IH]; intros locations;
    [done |].
  cbn [fold_left]. rewrite IH, index_file_lookup.
  unfold declaring_files. simpl.
  destruct (declares name data); simpl; [| done].
  rewrite last_cons. by destruct (last _).
Qed.

Lemma function_locations_lookup (parse_results : dict) (name : string) :
  function_locations parse_results !! name =
  last (declaring_files name parse_results).
Proof.
  unfold function_locations. rewrite fold_index_file_lookup.
  by destruct (last _).
Qed.

Lemma in_declaring_files (name : string) (parse_results : dict)
    (file_path : path) :
  In file_path (declaring_files name parse_results) <->
  exists data,
    In (file_path, data) parse_results /\ declares name data = true.
Proof.
  unfold declaring_files. rewrite in_map_iff. split.
  - intros ([p data] & <- & Hin). apply filter_In in Hin as [Hin Hd].
    by exists data.
  - intros (data & Hin & Hd). exists (file_path, data).
    split; [done |]. by apply filter_In.
Qed.

(** A name is a key of the index exactly when a file that was parsed
    declares a function of that name. *)
Lemma function_locations_is_Some (parse_results : dict) (name : string) :
  is_Some (function_locations parse_results !! name) <->
  exists file_path found func,
    In (file_path, Success found) parse_results /\
    In func (functions found) /\ fn_name func = name.
Proof.
  rewrite function_locations_lookup. split.
  - intros [file_path Hlast].
    assert (Hin : In file_path (declaring_files name parse_results)).
    { apply list_elem_of_In. by eapply last_Some_elem_of. }
    apply in_declaring_files in Hin as (data & Hin & Hd).
    apply declares_spec in Hd as (func & Hf & Hname).
    destruct data as [found | error]; [| done].
    by exists file_path, found, func.
  - intros (file_path & found & func & Hin & Hf & Hname).
    assert (Hd : In file_path (declaring_files name parse_results)).
    { apply in_declaring_files. exists (Success found). split; [done |].
      apply declares_spec. by exists func. }
    destruct (declaring_files name parse_results) as [|p l] eqn:E; [done |].
    rewrite last_cons. destruct (last l); by eexists.
Qed.

(** ** The edge list *)

(** A loop that only extends a list at its end builds the concatenation
    of what each turn adds. *)
Lemma fold_left_extend {A B} (f : list B -> A -> list B) (g : A -> list B) :
  (forall acc x, f acc x = acc ++ g x) ->
  forall l acc, fold_left f l acc = acc ++ flat_map g l.
Proof.
  intros Hf l. induction l as [|x l IH]; intros acc; simpl.
  - by rewrite app_nil_r.
  - by rewrite IH, Hf, <- app_assoc.
Qed.

Lemma add_edge_extend (locations : gmap string path) (caller : string)
    (edges : list (string * string)) (call : call_info) :
  add_edge locations caller edges call =
  edges ++ call_edge locations caller call.
Proof.
  unfold add_edge, call_edge. destruct (_ && _); by rewrite ?app_nil_r.
Qed.

Lemma edges_of_file_extend (locations : gmap string path)
    (edges : list (string * string)) (item : path * parse_result) :
  edges_of_file locations edges item = edges ++ file_edges locations item.2.
Proof.
  destruct item as [file_path data]. unfold edges_of_file, file_edges.
  destruct data as [found | error]; simpl; [| by rewrite app_nil_r].
  apply (fold_left_extend _
    (fun func => flat_map (call_edge locations (fn_name func)) (calls found))).
  intros acc func. apply fold_left_extend. intros acc' call.
  apply add_edge_extend.
Qed.

(** The edge list is, file after file in the order of the dictionary,
    function after function and call after call in the order of the
    file's lists, one pair per function and call of the same file. *)
Lemma build_call_graph_flat (parse_results : dict) :
  build_call_graph parse_results =
  flat_map (fun item => file_edges (function_locations parse_results) item.2)
    parse_results.
Proof.
  unfold build_call_graph.
  rewrite (fold_left_extend _
    (fun item => file_edges (function_locations parse_results) item.2)).
  - done.
  - intros acc item. apply edges_of_file_extend.
Qed.

Lemma in_file_edges (locations : gmap string path) (data : parse_result)
    (caller callee : string) :
  In (caller, callee) (file_edges locations data) <->
  truthy caller = true /\ is_Some (locations !! callee) /\
  exists func call,
    In func (get_functions data) /\ fn_name func = caller /\
    In call (get_calls data) /\ call_func call = callee.
Proof.
  unfold file_edges. rewrite in_flat_map. split.
  - intros (func & Hfunc & Hin). apply in_flat_map in Hin as (call & Hcall & Hin).
    unfold call_edge in Hin.
    destruct (truthy (fn_name func)) eqn:Ht; simpl in Hin; [| done].
    case_bool_decide as Hdecl; [| done].
    destruct Hin as [[= <- <-] | []].
    repeat split; try done. by exists func, call.
  - intros (Ht & Hdecl & func & call & Hfunc & <- & Hcall & <-).
    exists func. split; [done |]. apply in_flat_map. exists call.
    split; [done |]. unfold call_edge. rewrite Ht. simpl.
    rewrite bool_decide_eq_true_2 by done. by left.
Qed.

Lemma in_build_call_graph (parse_results : dict) (caller callee : string) :
  In (caller, callee) (build_call_graph parse_results) <->
  truthy caller = true /\
  is_Some (function_locations parse_results !! callee) /\
  exists file_path found func call,
    In (file_path, Success found) parse_results /\
    In func (functions found) /\ fn_name func = caller /\
    In call (calls found) /\ call_func call = callee.
Proof.
  rewrite build_call_graph_flat, in_flat_map. split.
  - intros ([file_path data] & Hitem & Hin).
    apply in_file_edges in Hin
      as (Ht & Hdecl & func & call & Hfunc & Hname & Hcall & Hcallee).
    destruct data as [found | error]; [| done].
    repeat split; try done. by exists file_path, found, func, call.
  - intros (Ht & Hdecl & file_path & found & func & call
            & Hitem & Hfunc & Hname & Hcall & Hcallee).
    exists (file_path, Success found). split; [done |].
    apply in_file_edges. repeat split; try done. by exists func, call.
Qed.

(** ** Counting edges *)

Lemma occurrences_app (edge : string * string)
    (l1 l2 : list (string * string)) :
  occurrences edge (l1 ++ l2) = occurrences edge l1 + occurrences edge l2.
Proof. unfold occurrences. by rewrite List.filter_app, length_app. Qed.

Lemma occurrences_flat_map {A} (edge : string * string)
    (g : A -> list (string * string)) (l : list A) :
  occurrences edge (flat_map g l) =
  list_sum (map (fun x => occurrences edge (g x)) l).
Proof.
  induction l as [|x l IH]; simpl; [done |].
  by rewrite occurrences_app, IH.
Qed.

Lemma occurrences_call_edge (locations : gmap string path)
    (name caller callee : string) (call : call_info) :
  occurrences (caller, callee) (call_edge locations name call) =
  if String.eqb name caller && truthy caller &&
     bool_decide (is_Some (locations !! callee)) &&
     String.eqb (call_func call) callee
  then 1 else 0.
Proof.
  unfold call_edge, occurrences.
  destruct (String.eqb_spec name caller) as [-> | Hname];
    destruct (String.eqb_spec (call_func call) callee) as [-> | Hcallee];
    destruct (truthy _); simpl; try done;
    repeat (case_bool_decide; simpl; simplify_eq); done.
Qed.

Lemma occurrences_calls (locations : gmap string path)
    (name caller callee : string) (data : parse_result) :
  occurrences (caller, callee)
    (flat_map (call_edge locations name) (get_calls data)) =
  if String.eqb name caller && truthy caller &&
     bool_decide (is_Some (locations !! callee))
  then count_calls callee data else 0.
Proof.
  rewrite occurrences_flat_map. unfold count_calls.
  induction (get_calls data) as [|call l IH]; simpl.
  - by destruct (_ && _).
  - rewrite IH, occurrences_call_edge.
    destruct (_ && _ && _); simpl; [| done].
    by destruct (String.eqb _ callee).
Qed.

Lemma occurrences_file_edges (locations : gmap string path)
    (caller callee : string) (data : parse_result) :
  occurrences (caller, callee) (file_edges locations data) =
  if truthy caller && bool_decide (is_Some (locations !! callee))
  then count_functions caller data * count_calls callee data else 0.
Proof.
  unfold file_edges. rewrite occurrences_flat_map. unfold count_functions.
  induction (get_functions data) as [|func l IH]; simpl.
  - by destruct (_ && _).
  - rewrite IH, occurrences_calls.
    destruct (String.eqb (fn_name func) caller); simpl;
      destruct (truthy caller); simpl; try done.
    destruct (bool_decide _); simpl; done.
Qed.

Lemma occurrences_build_call_graph (parse_results : dict)
    (caller callee : string) :
  occurrences (caller, callee) (build_call_graph parse_results) =
  if truthy caller &&
     bool_decide (is_Some (function_locations parse_results !! callee))
  then list_sum
         (map (fun item =>
                 count_functions caller item.2 * count_calls callee item.2)
            parse_results)
  else 0.
Proof.
  rewrite build_call_graph_flat, occurrences_flat_map.
  generalize (function_locations parse_results). intros locations.
  induction parse_results as [|item rest IH]; simpl.
  - by destruct (_ && _).
  - rewrite IH, occurrences_file_edges. by destruct (_ && _).
Qed.

(** ** The scan *)

Lemma dict_get_set {V} (d : list (path * V)) (k k' : path) (v : V) :
  dict_get (dict_set d k v) k' =
  if decide (k = k') then Some v else dict_get d k'.
Proof.
  induction d as [|[k0 v0] d IH]; simpl.
  - by repeat case_decide.
  - repeat (case_decide; simpl; simplify_eq); try done.
    all: rewrite IH; by case_decide.
Qed.

Lemma dict_get_In {V} (d : list (path * V)) (k : path) (v : V) :
  dict_get d k = Some v -> In (k, v) d.
Proof.
  induction d as [|[k0 v0] d IH]; simpl; [done |].
  case_decide; [intros [= ->]; subst; by left | right; auto].
Qed.


Lemma dict_set_map {V W} (h : V -> W) (d : list (path * V)) (k : path)
    (v : V) :
  map (prod_map id h) (dict_set d k v) =
  dict_set (map (prod_map id h) d) k (h v).
Proof.
  induction d as [|[k0 v0] d IH]; simpl; [done |].
  case_decide; simpl; [done |]. by rewrite IH.
Qed.

Section ScanFacts.

Context `{interpreter}.

Lemma fold_scan_file (root : option fs_node) (dirpath : path)
    (filenames : list string) :
  forall results,
    fold_left (scan_file root dirpath) filenames results =
    fold_left (store root)
      (map (fun filename => dirpath ++ [filename])
         (List.filter (fun filename => endswith filename ".py") filenames))
      results.
Proof.
  induction filenames as [|filename l IH]; intros results; simpl; [done |].
  rewrite IH. unfold scan_file. by destruct (endswith filename ".py").
Qed.

Lemma scan_repo_for_python_fold (root : option fs_node) :
  scan_repo_for_python root = fold_left (store root) (py_files root) [].
Proof.
  unfold scan_repo_for_python, py_files.
  generalize (@nil (path * parse_result)).
  induction (os_walk not_ignored root) as [|[[dirpath dirnames] filenames] l IH];
    intros results; simpl; [done |].
  by rewrite IH, fold_left_app, fold_scan_file.
Qed.

Lemma fold_store_get (root : option fs_node) (files : list path) (q : path) :
  forall results,
    dict_get (fold_left (store root) files results) q =
    if bool_decide (q ∈ files)
    then Some (parse_python_file (load_file root q))
    else dict_get results q.
Proof.
  induction files as [|p files IH]; intros results; cbn [fold_left].
  - rewrite bool_decide_eq_false_2; [done | apply not_elem_of_nil].
  - rewrite IH. unfold store. rewrite dict_get_set.
    destruct (decide (p = q)) as [-> | Hne].
    + rewrite (bool_decide_eq_true_2 (q ∈ q :: files)); [| by left].
      by case_bool_decide.
    + case_bool_decide as Hin.
      * rewrite bool_decide_eq_true_2; [done | by right].
      * rewrite bool_decide_eq_false_2; [done |].
        intros [?|?]%elem_of_cons; done.
Qed.

(** Every file that the walk enumerates has its record in the result. *)
Lemma scan_repo_for_python_get (root : option fs_node) (q : path) :
  dict_get (scan_repo_for_python root) q =
  if bool_decide (q ∈ py_files root)
  then Some (parse_python_file (load_file root q))
  else None.
Proof. by rewrite scan_repo_for_python_fold, fold_store_get. Qed.



End ScanFacts.

(** ** The order of the files, and the files that failed *)

Lemma call_edge_ext (l1 l2 : gmap string path) (caller : string)
    (call : call_info) :
  (forall name, is_Some (l1 !! name) <-> is_Some (l2 !! name)) ->
  call_edge l1 caller call = call_edge l2 caller call.
Proof.
  intros Hkeys. unfold call_edge.
  by rewrite (bool_decide_ext _ _ (Hkeys (call_func call))).
Qed.




Lemma declaring_files_parsed (name : string) (parse_results : dict) :
  declaring_files name (parsed parse_results) =
  declaring_files name parse_results.
Proof.
  unfold declaring_files, parsed.
  induction parse_results as [|[file_path data] rest IH]; simpl; [done |].
  destruct data as [found | error]; simpl.
  - destruct (declares name (Success found)); simpl; by rewrite IH.
  - done.
Qed.

Lemma function_locations_parsed (parse_results : dict) :
  function_locations (parsed parse_results) =
  function_locations parse_results.
Proof.
  apply map_eq. intros name.
  by rewrite !function_locations_lookup, declaring_files_parsed.
Qed.

Lemma build_call_graph_parsed (parse_results : dict) :
  build_call_graph (parsed parse_results) = build_call_graph parse_results.
Proof.
  rewrite !build_call_graph_flat, function_locations_parsed.
  generalize (function_locations parse_results). intros locations.
  unfold parsed.
  induction parse_results as [|[file_path data] rest IH]; simpl; [done |].
  destruct data as [found | error]; simpl; by rewrite IH.
Qed.

(** ** What the call graph reads of a record *)

Lemma file_edges_skeleton (locations : gmap string path)
    (data : parse_result) :
  file_edges locations data = skeleton_edges locations (skeleton data).
Proof.
  unfold file_edges, skeleton_edges, skeleton. simpl.
  induction (get_functions data) as [|func l IH]; simpl; [done |].
  by rewrite IH.
Qed.

Lemma declares_skeleton (name : string) (data : parse_result) :
  declares name data = true <-> In name (skeleton data).1.2.
Proof.
  rewrite declares_spec. unfold skeleton. simpl. rewrite in_map_iff.
  split; intros (func & H1 & H2); by exists func.
Qed.

Lemma function_locations_skeleton (rs : dict) (name : string) :
  is_Some (function_locations rs !! name) <->
  exists item,
    In item (map (prod_map id skeleton) rs) /\ In name item.2.1.2.
Proof.
  rewrite function_locations_is_Some. split.
  - intros (file_path & found & func & Hin & Hfunc & Hname).
    exists (file_path, skeleton (Success found)). split.
    + apply in_map_iff. by exists (file_path, Success found).
    + apply declares_skeleton, declares_spec. by exists func.
  - intros (item & Hin & Hname).
    apply in_map_iff in Hin as ([file_path data] & <- & Hin).
    apply declares_skeleton, declares_spec in Hname as (func & Hfunc & Hname).
    destruct data as [found | error]; [| done].
    by exists file_path, found, func.
Qed.

Lemma build_call_graph_skeleton (rs1 rs2 : dict) :
  map (prod_map id skeleton) rs1 = map (prod_map id skeleton) rs2 ->
  build_call_graph rs1 = build_call_graph rs2.
Proof.
  intros Hsk.
  assert (Hflat : forall locations (rs : dict),
    flat_map (fun item => file_edges locations item.2) rs =
    flat_map (fun item => skeleton_edges locations item.2)
      (map (prod_map id skeleton) rs)).
  { intros locations rs. induction rs as [|[file_path data] rs IH]; simpl;
      [done |]. by rewrite IH, file_edges_skeleton. }
  rewrite !build_call_graph_flat, !Hflat, Hsk.
  apply flat_map_ext. intros item. unfold skeleton_edges.
  apply flat_map_ext. intros caller. apply flat_map_ext. intros call.
  apply call_edge_ext. intros name.
  by rewrite !function_locations_skeleton, Hsk.
Qed.

(** ** Two runs of the interpreter *)

Lemma function_names `{interpreter} (l : list node) :
  map fn_name (flat_map (fun n => option_list (function_record n)) l) =
  flat_map def_name l.
Proof.
  induction l as [|n l IH]; simpl; [done |].
  rewrite map_app, IH. by destruct n.
Qed.

Lemma skeleton_parse_python_file `{interpreter} (load : outcome node) :
  skeleton (parse_python_file load) =
  match load with
  | Return tree =>
      (true, flat_map def_name (ast_walk tree),
       flat_map call_record (ast_walk tree))
  | Raise _ => (false, [], [])
  end.
Proof.
  destruct load as [tree | e].
  - unfold skeleton. simpl.
    by rewrite extract_functions, function_names, extract_calls.
  - by destruct e.
Qed.

Lemma scan_skeleton (I1 I2 : interpreter) (root : option fs_node) :
  map (prod_map id skeleton) (@scan_repo_for_python I1 root) =
  map (prod_map id skeleton) (@scan_repo_for_python I2 root).
Proof.
  rewrite !scan_repo_for_python_fold.
  assert (Hfold : forall files (d1 d2 : dict),
    map (prod_map id skeleton) d1 = map (prod_map id skeleton) d2 ->
    map (prod_map id skeleton) (fold_left (@store I1 root) files d1) =
    map (prod_map id skeleton) (fold_left (@store I2 root) files d2)).
  { induction files as [|p files IH]; intros d1 d2 Hd; simpl; [done |].
    apply IH. unfold store. rewrite !dict_set_map, Hd.
    by rewrite !skeleton_parse_python_file. }
  by apply Hfold.
Qed.

(** ** Where the records of a scan come from *)

Lemma in_dict_set {V} (d : list (path * V)) (k k' : path) (v v' : V) :
  In (k', v') (dict_set d k v) -> In (k', v') d \/ (k' = k /\ v' = v).
Proof.
  induction d as [|[k0 v0] d IH]; simpl.
  - intros [[= <- <-] | []]. by right.
  - case_decide; simpl.
    + intros [[= <- <-] | Hin]; [right | left; by right]. by subst.
    + intros [Heq | Hin]; [left; by left |].
      destruct (IH Hin) as [Hd | Hnew]; [left; by right | by right].
Qed.

Lemma in_fold_store `{interpreter} (root : option fs_node)
    (files : list path) (p : path) (v : parse_result) :
  forall results,
    In (p, v) (fold_left (store root) files results) ->
    In (p, v) results \/
    (In p files /\ v = parse_python_file (load_file root p)).
Proof.
  induction files as [|q files IH]; intros results; simpl; [by left |].
  intros Hin. destruct (IH _ Hin) as [Hstore | [Hfiles Hv]].
  - apply in_dict_set in Hstore as [Hres | [-> ->]]; [by left |].
    right. split; [by left | done].
  - right. split; [by right | done].
Qed.

Lemma in_scan_repo_for_python `{interpreter} (root : option fs_node)
    (p : path) (v : parse_result) :
  In (p, v) (scan_repo_for_python root) ->
  In p (py_files root) /\ v = parse_python_file (load_file root p).
Proof.
  rewrite scan_repo_for_python_fold. intros Hin.
  by destruct (in_fold_store _ _ _ _ _ Hin) as [[] | ?].
Qed.

Lemma scan_repo_for_python_In `{interpreter} (root : option fs_node)
    (p : path) :
  In p (py_files root) ->
  In (p, parse_python_file (load_file root p)) (scan_repo_for_python root).
Proof.
  intros Hin. apply dict_get_In. rewrite scan_repo_for_python_get.
  rewrite bool_decide_eq_true_2; [done | by apply list_elem_of_In].
Qed.

(** * The claims of the design document *)

(** ** Names of callees (C6) *)

(** C6. The callee of a call is resolved by the recursive rule: a bare
    identifier gives itself; [E.attr] gives the name of [E], a dot and
    [attr] when [E] resolves, and [attr] alone otherwise; a call gives
    what its own callee gives; every other shape gives no name.  The
    call list of a file holds, in the order of the walk, one record for
    each call whose callee resolves, and none for a call whose callee
    does not.  [obj.method()] gives ["obj.method"] and [f()()] gives
    ["f"]. *)
Theorem callee_resolution_rule `{interpreter} :
  (forall id, get_name_from_node (Name id) = id) /\
  (forall E attr,
     resolves E ->
     get_name_from_node (Attribute E attr) =
     get_name_from_node E +:+ "." +:+ attr) /\
  (forall E attr,
     ~ resolves E -> get_name_from_node (Attribute E attr) = attr) /\
  (forall func args keywords lineno,
     get_name_from_node (Call func args keywords lineno) =
     get_name_from_node func) /\
  (forall n, other_shape n -> get_name_from_node n = "") /\
  (forall tree, calls (extract tree) = flat_map call_record (ast_walk tree)) /\
  (forall func args keywords lineno,
     resolves func ->
     call_record (Call func args keywords lineno) =
     [{| call_func := get_name_from_node func; call_lineno := lineno |}]) /\
  (forall func args keywords lineno,
     ~ resolves func -> call_record (Call func args keywords lineno) = []) /\
  (forall tree func args keywords lineno,
     subnode (Call func args keywords lineno) tree ->
     resolves func ->
     In {| call_func := get_name_from_node func; call_lineno := lineno |}
        (calls (extract tree))) /\
  (forall tree call,
     In call (calls (extract tree)) ->
     exists func args keywords,
       subnode (Call func args keywords (call_lineno call)) tree /\
       resolves func /\ call_func call = get_name_from_node func) /\
  get_name_from_node (Attribute (Name "obj") "method") = "obj.method" /\
  get_name_from_node (Call (Call (Name "f") [] [] 1) [] [] 1) = "f".
Proof.
  unfold resolves. repeat apply conj; try done.
  - intros E attr HE. simpl. by rewrite HE.
  - intros E attr HE. simpl. by destruct (truthy _).
  - intros n Hn. by destruct n.
  - apply extract_calls.
  - intros func args keywords lineno Hf. simpl. by rewrite Hf.
  - intros func args keywords lineno Hf. simpl. by destruct (truthy _).
  - intros tree func args keywords lineno Hsub Hf.
    rewrite extract_calls. apply in_flat_map.
    exists (Call func args keywords lineno). split.
    + by apply ast_walk_spec.
    + simpl. rewrite Hf. by left.
  - intros tree call Hin. rewrite extract_calls in Hin.
    apply in_flat_map in Hin as (n & Hwalk & Hrec).
    apply ast_walk_spec in Hwalk.
    destruct n; simpl in Hrec; try done.
    destruct (truthy (get_name_from_node n)) eqn:Hf; [| done].
    destruct Hrec as [<- | []]. simpl. by eexists _, _, _.
Qed.

(** The rule at [os.path.join]: [os.path] resolves, so the attribute is
    added to its name. *)
Lemma callee_resolution_rule_witness :
  get_name_from_node (Attribute (Attribute (Name "os") "path") "join") =
  "os.path.join".
Proof.
  destruct (@callee_resolution_rule (object_text "0x0")) as (_ & Hattr & _).
  by rewrite (Hattr (Attribute (Name "os") "path") "join").
Defined.

(** ** Names of decorators (C7) *)

(** C7. A decorator that is an attribute access is not resolved by the
    dotted-name rule: [get_decorator_name] has no case for it and
    records the interpreter's text of the node object.  For [@app.route]
    the rule of the calls gives ["app.route"]; the recorded name is the
    text of the object, which is another string whatever the address. *)
Theorem decorator_attribute_text :
  (forall (I : interpreter) value attr,
     @get_decorator_name I (Attribute value attr) =
     @str_node I (Attribute value attr)) /\
  get_name_from_node (Attribute (Name "app") "route") = "app.route" /\
  (forall address,
     @get_decorator_name (object_text address)
       (Attribute (Name "app") "route") =
     "<ast.Attribute object at " +:+ address +:+ ">") /\
  (forall address,
     @get_decorator_name (object_text address)
       (Attribute (Name "app") "route") <> "app.route") /\
  (forall (I : interpreter) func args keywords lineno,
     @get_decorator_name I (Call func args keywords lineno) =
     get_name_from_node func).
Proof. repeat apply conj; done. Qed.

(** ** Failures of one file (C9) *)



(** ** Methods and nested functions (C10) *)

(** C10. Every function definition of a file's tree, wherever it lies
    (in a class body, inside another function), has its record in the
    flat function list of the file.  So its bare name is a key of the
    index of any result that holds the file's record, it is the caller
    of an edge for every call of the file whose callee is in the index,
    and it is the callee of an edge for every call to its name in a
    parsed file that lists a function. *)
Theorem nested_functions_recorded `{interpreter} (tree def : node)
    (info : function_info) :
  subnode def tree ->
  function_record def = Some info ->
  In info (functions (extract tree)) /\
  forall (parse_results : dict) (file_path : path),
    In (file_path, parse_python_file (Return tree)) parse_results ->
    is_Some (function_locations parse_results !! fn_name info) /\
    (forall call,
       In call (calls (extract tree)) ->
       truthy (fn_name info) = true ->
       is_Some (function_locations parse_results !! call_func call) ->
       In (fn_name info, call_func call) (build_call_graph parse_results)) /\
    (forall file_path' found func call,
       In (file_path', Success found) parse_results ->
       In func (functions found) ->
       truthy (fn_name func) = true ->
       In call (calls found) ->
       call_func call = fn_name info ->
       In (fn_name func, fn_name info) (build_call_graph parse_results)).
Proof.
  intros Hsub Hrec.
  assert (Hin : In info (functions (extract tree))).
  { rewrite extract_functions. apply in_flat_map. exists def. split.
    - by apply ast_walk_spec.
    - rewrite Hrec. by left. }
  split; [done |]. intros parse_results file_path Hfile.
  rewrite parse_python_file_return in Hfile.
  assert (Hkey : is_Some (function_locations parse_results !! fn_name info)).
  { apply function_locations_is_Some.
    by exists file_path, (extract tree), info. }
  repeat apply conj; [done | |].
  - intros call Hcall Ht Hcallee. apply in_build_call_graph.
    repeat split; try done.
    by exists file_path, (extract tree), info, call.
  - intros file_path' found func call Hfile' Hfunc Ht Hcall Hcallee.
    apply in_build_call_graph. repeat split; try done.
    by exists file_path', found, func, call.
Qed.

(** The function [inner], nested in a method of a class, is in the
    function list of its file. *)
Lemma nested_functions_recorded_witness :
  In {| fn_name := "inner"; fn_lineno := 3; fn_args := [];
        fn_decorators := []; fn_returns := None; fn_docstring := None |}
     (functions (@extract (object_text "0x0") greeter_module)).
Proof.
  refine (proj1 (@nested_functions_recorded (object_text "0x0")
                   greeter_module inner_def _ _ _)).
  - eapply subnode_child; [by left |].
    eapply subnode_child; [by left |].
    eapply subnode_child; [right; by left |].
    apply subnode_refl.
  - reflexivity.
Defined.

(** ** A root that is not a directory (C4) *)

(** C4, as the claim states it, fails: for a root that does not exist
    and for a root that is a file, listing the root raises inside
    [os.walk], the walk yields nothing, the scan returns the empty
    dictionary and the analysis goes on to an empty edge list. *)
Lemma missing_root_counterexample :
  let I := object_text "0x0" in
  scandir None =
    Raise (OtherException "FileNotFoundError" "No such file or directory") /\
  @scan_repo_for_python I None = [] /\
  @scan_repo_for_python I (Some (File (Return (PyModule [])))) = [] /\
  @analyze_code I None = ([], []).
Proof. repeat apply conj; reflexivity. Qed.

(** C4, amended.  For every root that does not exist or is not a
    directory, the walk yields no directory, the scan returns the empty
    dictionary, and the analysis continues with it and ends with an
    empty edge list. *)
Theorem scan_of_missing_root `{interpreter} (root : option fs_node) :
  is_directory root = false ->
  os_walk not_ignored root = [] /\
  scan_repo_for_python root = [] /\
  analyze_code root = ([], []).
Proof.
  intros Hroot. destruct root as [[load | entries] |]; by try discriminate.
Qed.

(** A root that does not exist. *)
Lemma scan_of_missing_root_witness :
  @analyze_code (object_text "0x0") None = ([], []).
Proof.
  apply (@scan_of_missing_root (object_text "0x0") None). reflexivity.
Defined.

(** ** A file with a syntax error (C5) *)

(** C5. A file with a syntax error gets a failure record with the
    message of the error, and the scan goes on: every file that the
    walk enumerates has its record in the result.  Every function of a
    file that parsed is a key of the index and is the caller of an edge
    for every call of its file to an indexed name.  The failed file
    gives nothing to either: the index and the edge list are those of
    the parsed records alone, among which the file is not. *)
Theorem syntax_error_isolated `{interpreter} (root : option fs_node)
    (bad : path) (msg : string) :
  In bad (py_files root) ->
  load_file root bad = Raise (SyntaxError msg) ->
  let results := scan_repo_for_python root in
  dict_get results bad = Some (Failure ("Syntax error: " +:+ msg)) /\
  (forall p,
     In p (py_files root) ->
     dict_get results p = Some (parse_python_file (load_file root p))) /\
  (forall p tree func,
     In p (py_files root) ->
     load_file root p = Return tree ->
     In func (functions (extract tree)) ->
     is_Some (function_locations results !! fn_name func)) /\
  (forall p tree func call,
     In p (py_files root) ->
     load_file root p = Return tree ->
     In func (functions (extract tree)) ->
     In call (calls (extract tree)) ->
     truthy (fn_name func) = true ->
     is_Some (function_locations results !! call_func call) ->
     In (fn_name func, call_func call) (build_call_graph results)) /\
  function_locations results = function_locations (parsed results) /\
  build_call_graph results = build_call_graph (parsed results) /\
  ~ In bad (map fst (parsed results)).
Proof.
  intros Hbad Hload results.
  assert (Hget : forall p,
    In p (py_files root) ->
    dict_get results p = Some (parse_python_file (load_file root p))).
  { intros p Hp. unfold results. rewrite scan_repo_for_python_get.
    rewrite bool_decide_eq_true_2; [done | by apply list_elem_of_In]. }
  assert (Hrecord : forall p tree,
    In p (py_files root) -> load_file root p = Return tree ->
    In (p, Success (extract tree)) results).
  { intros p tree Hp Htree.
    rewrite <- parse_python_file_return, <- Htree.
    by apply scan_repo_for_python_In. }
  repeat apply conj.
  - rewrite (Hget bad Hbad), Hload. done.
  - done.
  - intros p tree func Hp Htree Hfunc. apply function_locations_is_Some.
    exists p, (extract tree), func. by split; [apply Hrecord |].
  - intros p tree func call Hp Htree Hfunc Hcall Ht Hcallee.
    apply in_build_call_graph. repeat split; try done.
    exists p, (extract tree), func, call. by split; [apply Hrecord |].
  - by rewrite function_locations_parsed.
  - by rewrite build_call_graph_parsed.
  - intros Hin. apply in_map_iff in Hin as ([p v] & Hp & Hin).
    simpl in Hp. subst p. apply filter_In in Hin as [Hin Hok].
    apply in_scan_repo_for_python in Hin as [_ ->].
    rewrite Hload in Hok. done.
Qed.

(** The directory with [a.py], which parses, and [b.py], which does
    not: the failure is recorded and the edge of [a.py] is there. *)
Lemma syntax_error_isolated_witness :
  let results := @scan_repo_for_python (object_text "0x0") half_broken_root in
  dict_get results ["b.py"] =
    Some (Failure "Syntax error: invalid syntax (b.py, line 1)") /\
  build_call_graph results = [("ping", "ping")].
Proof.
  destruct (@syntax_error_isolated (object_text "0x0") half_broken_root
              ["b.py"] "invalid syntax (b.py, line 1)")
    as (Hbad & _ & _ & _ & _ & Hedges & _).
  - vm_compute. tauto.
  - reflexivity.
  - split; [exact Hbad |]. rewrite Hedges. reflexivity.
Defined.

(** ** Callers and the calls of their file (C1) *)

(** C1, as the claim states it, fails: the one call of the file, which
    lies in the body of [foo], is paired with [bar] as well, so there
    are two edges and one of them has the caller [bar]. *)
Lemma foo_bar_counterexample :
  let edges :=
    build_call_graph (@scan_repo_for_python (object_text "0x0") foo_bar_root) in
  edges = [("foo", "bar"); ("bar", "bar")] /\
  edges <> [("foo", "bar")] /\
  In ("bar", "bar") edges.
Proof. repeat apply conj; [reflexivity | discriminate | right; by left]. Qed.

(** C1, amended.  The edges with caller [F] come from every call that
    the file of [F] records, whichever declaration encloses it: a pair
    [(caller, callee)] is an edge exactly when the caller's name is not
    empty, the callee is a key of the index, and some parsed file lists
    both a function named [caller] and a call to [callee].  The edges
    carry no weight.  For the file of [foo] and [bar] the edges are
    [(foo, bar)] and [(bar, bar)]. *)
Theorem edges_pair_functions_with_file_calls :
  (forall (parse_results : dict) (caller callee : string),
     In (caller, callee) (build_call_graph parse_results) <->
     truthy caller = true /\
     is_Some (function_locations parse_results !! callee) /\
     exists file_path found func call,
       In (file_path, Success found) parse_results /\
       In func (functions found) /\ fn_name func = caller /\
       In call (calls found) /\ call_func call = callee) /\
  (forall I : interpreter,
     build_call_graph (@scan_repo_for_python I foo_bar_root) =
     [("foo", "bar"); ("bar", "bar")]).
Proof.
  split.
  - apply in_build_call_graph.
  - intros I. apply (build_call_graph_skeleton _
      (@scan_repo_for_python (object_text "0x0") foo_bar_root)).
    apply scan_skeleton.
Qed.

(** The pair [(bar, bar)] of the example, through the rule: [m.py] lists
    the function [bar] and a call to [bar]. *)
Lemma edges_pair_functions_with_file_calls_witness :
  In ("bar", "bar")
     (build_call_graph
        (@scan_repo_for_python (object_text "0x0") foo_bar_root)).
Proof.
  apply (proj1 edges_pair_functions_with_file_calls).
  split; [reflexivity | split].
  - exists ["m.py"]. reflexivity.
  - exists ["m.py"], (@extract (object_text "0x0") foo_bar_module),
      {| fn_name := "bar"; fn_lineno := 4; fn_args := ["x"];
         fn_decorators := []; fn_returns := None; fn_docstring := None |},
      {| call_func := "bar"; call_lineno := 2 |}.
    vm_compute. tauto.
Defined.

(** ** The index of names (C2) *)

(** C2, as the claim states it, fails: two files declare [run] and the
    index holds one entry under [run], the second file; the first is
    gone. *)
Lemma two_run_counterexample :
  let results := @scan_repo_for_python (object_text "0x0") two_run_root in
  declaring_files "run" results = [["a.py"]; ["b.py"]] /\
  index_entries (function_locations results) "run" = [["b.py"]] /\
  length (index_entries (function_locations results) "run") <>
  length (declaring_files "run" results).
Proof. repeat apply conj; [reflexivity | reflexivity | vm_compute; lia]. Qed.

(** C2, amended.  The index maps a name to one file path, that of the
    last file, in the order of the dictionary, whose record lists a
    function of that name: a later declaration replaces the earlier
    one.  No name is lost as a key: a name is a key exactly when some
    parsed file declares a function of that name.  Two files that
    declare [run] give one entry under [run], the second file. *)
Theorem index_keeps_last_file :
  (forall (parse_results : dict) (name : string),
     function_locations parse_results !! name =
     last (declaring_files name parse_results)) /\
  (forall (parse_results : dict) (name : string),
     is_Some (function_locations parse_results !! name) <->
     exists file_path found func,
       In (file_path, Success found) parse_results /\
       In func (functions found) /\ fn_name func = name) /\
  (forall I : interpreter,
     function_locations (@scan_repo_for_python I two_run_root) !! "run" =
     Some ["b.py"]).
Proof.
  split; [| split].
  - apply function_locations_lookup.
  - apply function_locations_is_Some.
  - intros [text doc]. reflexivity.
Qed.

(** The name [run] is a key: [a.py] declares it. *)
Lemma index_keeps_last_file_witness :
  is_Some
    (function_locations
       (@scan_repo_for_python (object_text "0x0") two_run_root) !! "run").
Proof.
  apply (proj1 (proj2 index_keeps_last_file)).
  exists ["a.py"], (@extract (object_text "0x0") (run_module 1)),
    {| fn_name := "run"; fn_lineno := 1; fn_args := [];
       fn_decorators := []; fn_returns := None; fn_docstring := None |}.
  vm_compute. tauto.
Defined.

(** ** Shape of the edge list (C3) *)

(** C3, as the claim states it, fails: the pair [(foo, bar)] is in the
    list three times, and the list is not in the order of the names. *)
Lemma three_calls_counterexample :
  let edges :=
    build_call_graph
      (@scan_repo_for_python (object_text "0x0") three_calls_root) in
  edges = [("foo", "bar"); ("foo", "bar"); ("foo", "bar");
           ("bar", "bar"); ("bar", "bar"); ("bar", "bar")] /\
  occurrences ("foo", "bar") edges = 3 /\
  edges_sorted edges = false.
Proof. repeat apply conj; reflexivity. Qed.

(** C3, amended.  The output is a plain list of [(caller, callee)]
    pairs, without weights and with repetitions: a pair occurs once for
    every function named [caller] and every call to [callee] that the
    same parsed file lists, when the caller's name is not empty and the
    callee is a key of the index, and does not occur otherwise.  The
    list follows the order of the dictionary, then of the function list
    of the file, then of its call list; it is not sorted.  A function
    [foo] that calls [bar] three times gives the pair [(foo, bar)] three
    times. *)
Theorem edge_list_is_unaggregated :
  (forall parse_results : dict,
     build_call_graph parse_results =
     flat_map
       (fun item =>
          flat_map
            (fun func =>
               flat_map
                 (call_edge (function_locations parse_results) (fn_name func))
                 (get_calls item.2))
            (get_functions item.2))
       parse_results) /\
  (forall (parse_results : dict) (caller callee : string),
     occurrences (caller, callee) (build_call_graph parse_results) =
     if truthy caller &&
        bool_decide (is_Some (function_locations parse_results !! callee))
     then list_sum
            (map (fun item =>
                    count_functions caller item.2 * count_calls callee item.2)
               parse_results)
     else 0) /\
  (forall I : interpreter,
     occurrences ("foo", "bar")
       (build_call_graph (@scan_repo_for_python I three_calls_root)) = 3).
Proof.
  split; [| split].
  - apply build_call_graph_flat.
  - apply occurrences_build_call_graph.
  - intros [text doc]. reflexivity.
Qed.

(** ** Runs and orders of enumeration (C8) *)




(** * Further properties *)

(** ** What the walk visits *)

Lemma fs_node_nested_ind (P : fs_node -> Prop) :
  (forall load, P (File load)) ->
  (forall entries, Forall (fun e => P e.2) entries -> P (Dir entries)) ->
  forall n, P n.
Proof.
  intros Hfile Hdir. fix IH 1. intros [load | entries].
  - apply Hfile.
  - apply Hdir. induction entries as [|[name child] entries IHentries].
    + constructor.
    + constructor; [apply IH | apply IHentries].
Qed.

Lemma walk_dir_Dir (keep : string -> bool) (top : path)
    (entries : list (string * fs_node)) :
  walk_dir keep top (Dir entries) =
  (top, List.filter keep (dir_names entries), file_names entries) ::
  flat_map
    (fun e => if is_dir e.2 && keep e.1
              then walk_dir keep (top ++ [e.1]) e.2 else [])
    entries.
Proof.
  simpl. f_equal.
  induction entries as [|[name child] entries IH]; simpl; [done |].
  by rewrite IH.
Qed.

Lemma reaches_File (load : outcome node) (p : path) (m : fs_node) :
  reaches (File load) p m -> p = [] /\ m = File load.
Proof. by inversion 1. Qed.

Lemma reaches_snoc (n : fs_node) (p : path)
    (entries : list (string * fs_node)) (name : string) (m : fs_node) :
  reaches n p (Dir entries) -> In (name, m) entries ->
  reaches n (p ++ [name]) m.
Proof.
  intros Hreach Hin. remember (Dir entries) as d eqn:Hd.
  induction Hreach as [n | es name' child p' m' Hin' Hreach IH]; subst.
  - simpl. eapply reaches_entry; [done | constructor].
  - simpl. eapply reaches_entry; [done | by apply IH].
Qed.

Lemma reaches_snoc_inv (p : path) :
  forall (n : fs_node) (name : string) (m : fs_node),
    reaches n (p ++ [name]) m ->
    exists entries, reaches n p (Dir entries) /\ In (name, m) entries.
Proof.
  induction p as [|d p IH]; intros n name m Hreach; simpl in Hreach.
  - inversion Hreach as [| entries ? child ? ? Hin Hchild]; subst.
    inversion Hchild; subst. exists entries. split; [constructor | done].
  - inversion Hreach as [| entries ? child ? ? Hin Hchild]; subst.
    destruct (IH _ _ _ Hchild) as (entries' & Hreach' & Hin').
    exists entries'. split; [by eapply reaches_entry | done].
Qed.

(** The walk yields one triple for the root and one for every directory
    that is reached from it through kept names only. *)
Lemma in_walk_dir (keep : string -> bool) (n : fs_node) :
  forall (top : path) (t : path * list string * list string),
    In t (walk_dir keep top n) <->
    exists sub entries,
      reaches n sub (Dir entries) /\
      Forall (fun d => keep d = true) sub /\
      t = (top ++ sub, List.filter keep (dir_names entries),
           file_names entries).
Proof.
  induction n as [load | entries IH] using fs_node_nested_ind; intros top t.
  - simpl. split; [done |].
    intros (sub & entries & Hreach & _). by apply reaches_File in Hreach as [_ ?].
  - rewrite walk_dir_Dir. simpl. rewrite in_flat_map. split.
    + intros [<- | ([name child] & Hin & Ht)].
      * exists [], entries. rewrite app_nil_r.
        split; [constructor | split; [constructor | done]].
      * simpl in Ht. destruct (is_dir child && keep name) eqn:Hok; [| done].
        apply andb_prop in Hok as [Hdir Hkeep].
        rewrite List.Forall_forall in IH. apply (IH _ Hin) in Ht
          as (sub & entries' & Hreach & Hsub & ->).
        exists (name :: sub), entries'. rewrite <- app_assoc. simpl.
        split; [by eapply reaches_entry | split; [by constructor | done]].
    + intros (sub & entries' & Hreach & Hsub & ->).
      inversion Hreach as [| ? name child p ? Hin Hchild]; subst.
      * left. by rewrite app_nil_r.
      * right. exists (name, child). split; [done |]. simpl.
        apply Forall_cons in Hsub as [Hkeep Hsub].
        assert (Hdir : is_dir child = true).
        { destruct child as [load | es]; [| done].
          by apply reaches_File in Hchild as [_ ?]. }
        rewrite Hdir, Hkeep. simpl.
        rewrite List.Forall_forall in IH. apply (IH _ Hin).
        exists p, entries'. rewrite <- app_assoc. by simpl.
Qed.

Lemma in_file_names (entries : list (string * fs_node)) (name : string) :
  In name (file_names entries) <-> exists load, In (name, File load) entries.
Proof.
  unfold file_names. rewrite in_map_iff. split.
  - intros ([name' child] & <- & Hin). apply filter_In in Hin as [Hin Hfile].
    destruct child as [load | es]; [by exists load | done].
  - intros (load & Hin). exists (name, File load). split; [done |].
    by apply filter_In.
Qed.

(** The files that the scan parses are the files with a name in [.py]
    that are reached from the root through directories whose names are
    not in the ignore set. *)
Lemma in_py_files (root : fs_node) (p : path) :
  In p (py_files (Some root)) <->
  exists dirs name load,
    p = dirs ++ [name] /\
    reaches root p (File load) /\
    endswith name ".py" = true /\
    Forall (fun d => d ∉ ignore_dirs) dirs.
Proof.
  unfold py_files. rewrite in_flat_map. split.
  - intros ([[dirpath dirnames] filenames] & Hwalk & Hp).
    apply in_map_iff in Hp as (name & <- & Hname).
    apply filter_In in Hname as [Hname Hpy].
    destruct root as [load | entries]; [done |].
    unfold os_walk in Hwalk. simpl scandir in Hwalk. cbv iota in Hwalk.
    apply in_walk_dir in Hwalk as (sub & entries' & Hreach & Hsub & [= -> -> ->]).
    apply in_file_names in Hname as (load & Hin).
    exists sub, name, load. repeat split; try done.
    + by eapply reaches_snoc.
    + eapply Forall_impl; [exact Hsub |]. intros d Hd.
      by apply bool_decide_eq_true in Hd.
  - intros (dirs & name & load & -> & Hreach & Hpy & Hdirs).
    apply reaches_snoc_inv in Hreach as (entries' & Hreach & Hin).
    destruct root as [load' | entries].
    { by apply reaches_File in Hreach as [_ ?]. }
    exists (dirs, List.filter not_ignored (dir_names entries'),
            file_names entries').
    split.
    + unfold os_walk. simpl scandir. cbv iota. apply in_walk_dir.
      exists dirs, entries'. repeat split; try done.
      eapply Forall_impl; [exact Hdirs |]. intros d Hd.
      by apply bool_decide_eq_true.
    + apply in_map_iff. exists name. split; [done |].
      apply filter_In. split; [| done]. apply in_file_names. by exists load.
Qed.

(** The paths with a record in the result of the scan. *)
Lemma dict_get_scan_is_Some `{interpreter} (root : fs_node) (p : path) :
  is_Some (dict_get (scan_repo_for_python (Some root)) p) <->
  exists dirs name load,
    p = dirs ++ [name] /\
    reaches root p (File load) /\
    endswith name ".py" = true /\
    Forall (fun d => d ∉ ignore_dirs) dirs.
Proof.
  rewrite <- in_py_files, scan_repo_for_python_get.
  rewrite <- list_elem_of_In. by case_bool_decide; split.
Qed.

(** X1.  The result of the scan has a record for a path exactly when
    the path leads from the root to a file whose name ends in [.py]
    through directories none of which is in the ignore set: nothing
    under [.git], [node_modules], [__pycache__], [venv], [.venv],
    [dist] or [build] is parsed, no other file is parsed, and no such
    file is left out. *)
Theorem scan_records_exactly_the_python_files `{interpreter}
    (root : fs_node) (p : path) :
  is_Some (dict_get (scan_repo_for_python (Some root)) p) <->
  exists dirs name load,
    p = dirs ++ [name] /\
    reaches root p (File load) /\
    endswith name ".py" = true /\
    Forall (fun d => d ∉ ignore_dirs) dirs.
Proof. apply dict_get_scan_is_Some. Qed.

(** ** More on the edge list *)

(** X2.  Both ends of every edge are names of the index: the caller and
    the callee are each declared by some file that was parsed.  A call
    to a name that no parsed file declares gives no edge. *)
Theorem edge_ends_are_indexed (parse_results : dict) (caller callee : string) :
  In (caller, callee) (build_call_graph parse_results) ->
  is_Some (function_locations parse_results !! caller) /\
  is_Some (function_locations parse_results !! callee).
Proof.
  intros Hin. apply in_build_call_graph in Hin
    as (_ & Hcallee & file_path & found & func & call & Hfile & Hfunc
        & Hname & _).
  split; [| done]. apply function_locations_is_Some.
  by exists file_path, found, func.
Qed.

Lemma edge_ends_are_indexed_witness :
  is_Some (function_locations
             (@scan_repo_for_python (object_text "0x0") foo_bar_root)
           !! "foo") /\
  is_Some (function_locations
             (@scan_repo_for_python (object_text "0x0") foo_bar_root)
           !! "bar").
Proof.
  apply (edge_ends_are_indexed _ "foo" "bar"). vm_compute. tauto.
Defined.

Lemma length_flat_map {A B} (g : A -> list B) (l : list A) :
  length (flat_map g l) = list_sum (map (fun x => length (g x)) l).
Proof.
  induction l as [|x l IH]; simpl; [done |].
  by rewrite length_app, IH.
Qed.

Lemma length_file_edges (locations : gmap string path)
    (data : parse_result) :
  length (file_edges locations data) =
  named_functions data * indexed_calls locations data.
Proof.
  unfold file_edges, named_functions, indexed_calls.
  rewrite length_flat_map.
  assert (Hcalls : forall caller,
    length (flat_map (call_edge locations caller) (get_calls data)) =
    if truthy caller
    then length (List.filter
                   (fun call =>
                      bool_decide (is_Some (locations !! call_func call)))
                   (get_calls data))
    else 0).
  { intros caller. rewrite length_flat_map. unfold call_edge.
    induction (get_calls data) as [|call l IH]; simpl.
    - by destruct (truthy caller).
    - rewrite IH. destruct (truthy caller); simpl; [| done].
      by destruct (bool_decide _). }
  induction (get_functions data) as [|func l IH]; simpl; [done |].
  rewrite IH, Hcalls. destruct (truthy (fn_name func)); simpl; lia.
Qed.

(** X3.  The number of edges is the sum, over the records, of the
    number of functions of the record with a name times the number of
    its calls to a name of the index: every function of a file is
    paired with every such call of the file. *)
Theorem number_of_edges (parse_results : dict) :
  length (build_call_graph parse_results) =
  list_sum
    (map (fun item =>
            named_functions item.2 *
            indexed_calls (function_locations parse_results) item.2)
       parse_results).
Proof.
  rewrite build_call_graph_flat, length_flat_map.
  f_equal. apply map_ext. intros item. apply length_file_edges.
Qed.

Lemma function_record_of_def `{interpreter} (n : node) (name : string) :
  In name (def_name n) ->
  exists info, function_record n = Some info /\ fn_name info = name.
Proof.
  destruct n; simpl; try done. intros [<- | []]. by eexists.
Qed.

(** ** Counting the nodes that the walk visits *)

Lemma tree_sum_children (f : node -> nat) (n : node) :
  tree_sum f n = f n + list_sum (map (tree_sum f) (iter_child_nodes n)).
Proof.
  destruct n; simpl; f_equal; rewrite ?map_app, ?list_sum_app; simpl;
    try lia.
  destruct returns; simpl; lia.
Qed.

Lemma walk_queue_sum (f : node -> nat) (turns : nat) :
  forall todo,
    queue_size todo <= turns ->
    list_sum (map f (walk_queue turns todo)) =
    list_sum (map (tree_sum f) todo).
Proof.
  induction turns as [|turns IH]; intros todo Hsize.
  - destruct todo as [|n rest]; [done |].
    exfalso. pose proof (node_size_pos n).
    unfold queue_size in Hsize. simpl in Hsize. lia.
  - destruct todo as [|n rest]; [done |].
    simpl. rewrite IH.
    + rewrite map_app, list_sum_app, (tree_sum_children f n). lia.
    + rewrite queue_size_app. unfold queue_size in *. simpl in Hsize.
      rewrite node_size_children in Hsize. unfold queue_size in Hsize. lia.
Qed.

Lemma ast_walk_sum (f : node -> nat) (tree : node) :
  list_sum (map f (ast_walk tree)) = tree_sum f tree.
Proof.
  unfold ast_walk. rewrite walk_queue_sum.
  - simpl. lia.
  - unfold queue_size. simpl. lia.
Qed.

(** X4.  The function list of a file has as many records as the tree
    has function definitions, and the call list as many as the tree has
    calls whose callee resolves: the walk visits every node once, so
    nothing is recorded twice. *)
Theorem records_counted_once `{interpreter} (tree : node) :
  length (functions (extract tree)) = count_defs tree /\
  length (calls (extract tree)) = count_resolved_calls tree.
Proof.
  unfold count_defs, count_resolved_calls.
  rewrite extract_functions, extract_calls, !length_flat_map, <- !ast_walk_sum.
  split; [| done]. f_equal. apply map_ext. intros n. by destruct n.
Qed.

(** ** From the trees to the edges *)

Lemma in_functions_extract `{interpreter} (tree : node) (name : string) :
  (exists func, In func (functions (extract tree)) /\ fn_name func = name) <->
  exists def, subnode def tree /\ def_name def = [name].
Proof.
  rewrite extract_functions. split.
  - intros (func & Hin & <-). apply in_flat_map in Hin as (def & Hwalk & Hrec).
    exists def. split; [by apply ast_walk_spec |].
    destruct def; simpl in Hrec; try done. by destruct Hrec as [<- | []].
  - intros (def & Hsub & Hname).
    destruct (function_record_of_def def name) as (info & Hrec & Hinfo).
    { rewrite Hname. by left. }
    exists info. split; [| done]. apply in_flat_map. exists def.
    split; [by apply ast_walk_spec |]. rewrite Hrec. by left.
Qed.

Lemma in_calls_extract `{interpreter} (tree : node) (name : string) :
  (exists call, In call (calls (extract tree)) /\ call_func call = name) <->
  exists func args keywords lineno,
    subnode (Call func args keywords lineno) tree /\
    get_name_from_node func = name /\ truthy name = true.
Proof.
  rewrite extract_calls. split.
  - intros (call & Hin & <-). apply in_flat_map in Hin as (n & Hwalk & Hrec).
    apply ast_walk_spec in Hwalk. destruct n; simpl in Hrec; try done.
    destruct (truthy (get_name_from_node n)) eqn:Ht; [| done].
    destruct Hrec as [<- | []]. simpl. by eexists _, _, _, _.
  - intros (func & args & keywords & lineno & Hsub & <- & Ht).
    eexists. split.
    + apply in_flat_map. eexists. split; [by apply ast_walk_spec |].
      simpl. rewrite Ht. by left.
    + done.
Qed.

Lemma in_scan_Success `{interpreter} (root : option fs_node) (p : path)
    (found : collected) :
  In (p, Success found) (scan_repo_for_python root) <->
  In p (py_files root) /\
  exists tree, load_file root p = Return tree /\ found = extract tree.
Proof.
  split.
  - intros Hin. apply in_scan_repo_for_python in Hin as [Hp Hfound].
    split; [done |].
    destruct (load_file root p) as [tree | [msg | cls msg]]; try done.
    exists tree. split; [done |]. by injection Hfound.
  - intros (Hp & tree & Hload & ->).
    rewrite <- parse_python_file_return, <- Hload.
    by apply scan_repo_for_python_In.
Qed.

(** X5.  From the trees to the call graph: the pair [(caller, callee)]
    is an edge of the call graph of a scanned root exactly when some
    scanned file that loads holds, anywhere in its tree, a function
    definition named [caller] and a call whose callee resolves to
    [callee], both names not empty, and some scanned file that loads
    holds a function definition named [callee]. *)
Theorem edges_from_the_trees `{interpreter} (root : option fs_node)
    (caller callee : string) :
  In (caller, callee) (build_call_graph (scan_repo_for_python root)) <->
  truthy caller = true /\
  (exists p tree def func args keywords lineno,
     In p (py_files root) /\ load_file root p = Return tree /\
     subnode def tree /\ def_name def = [caller] /\
     subnode (Call func args keywords lineno) tree /\
     get_name_from_node func = callee /\ truthy callee = true) /\
  (exists q tree def,
     In q (py_files root) /\ load_file root q = Return tree /\
     subnode def tree /\ def_name def = [callee]).
Proof.
  rewrite in_build_call_graph, function_locations_is_Some. split.
  - intros (Ht & (q & found' & func' & Hq & Hfunc' & Hname')
            & p & found & func & call & Hp & Hfunc & Hname & Hcall & Hcallee).
    apply in_scan_Success in Hp as (Hp & tree & Hload & ->).
    apply in_scan_Success in Hq as (Hq & tree' & Hload' & ->).
    destruct (proj1 (in_functions_extract tree caller)) as (def & Hdef & Hd).
    { by exists func. }
    destruct (proj1 (in_calls_extract tree callee))
      as (f & args & keywords & lineno & Hsub & Hf & Htc).
    { by exists call. }
    destruct (proj1 (in_functions_extract tree' callee)) as (def' & Hdef' & Hd').
    { by exists func'. }
    split; [done |]. split.
    + by exists p, tree, def, f, args, keywords, lineno.
    + by exists q, tree', def'.
  - intros (Ht & (p & tree & def & f & args & keywords & lineno & Hp & Hload
                  & Hdef & Hd & Hsub & Hf & Htc)
            & q & tree' & def' & Hq & Hload' & Hdef' & Hd').
    destruct (proj2 (in_functions_extract tree caller)) as (func & Hfunc & Hn).
    { by exists def. }
    destruct (proj2 (in_calls_extract tree callee)) as (call & Hcall & Hc).
    { by exists f, args, keywords, lineno. }
    destruct (proj2 (in_functions_extract tree' callee))
      as (func' & Hfunc' & Hn').
    { by exists def'. }
    split; [done |]. split.
    + exists q, (extract tree'), func'. split; [| done].
      apply in_scan_Success. split; [done |]. by exists tree'.
    + exists p, (extract tree), func, call. split; [| done].
      apply in_scan_Success. split; [done |]. by exists tree.
Qed.
